(** * Escaped run-length codec of [session06/activity03.py]

    A shallow embedding of [_encode_token], [rle_encode], [_read_count]
    and [rle_decode], and the properties of the codec: literal
    scenarios, header and totality of the encoder, the rejections of
    the decoder, and the round trip; then [_prompt] and [main], the
    command line around the codec.

    Python strings are sequences of Unicode code points, so a
    character is a code point ([N]) and a [str] a list of them.
    Python integers are unbounded ([N] for the run counts, which are
    never negative).  Limits of the interpreter (memory, the
    configurable cap on the number of digits [int()] converts) are not
    part of the model. *)

From Equations Require Import Equations.
From Stdlib Require Import String Ascii List NArith PArith Bool Arith Wf_nat Lia.
From Stdlib Require Decimal DecimalN DecimalPos DecimalFacts.
Import ListNotations.
Local Open Scope N_scope.

(** ** Characters and strings *)

Definition char := N.
Abbreviation str := (list char) (only parsing).

(** A string literal of the source, as the list of its code points
    (ASCII only in the literals below). *)
Definition py (s : string) : str := map N_of_ascii (list_ascii_of_string s).

Definition HASH : char := 35.

(** ** Exceptions and results *)

Inductive exn : Type :=
| TypeError (msg : string)
| ValueError (msg : string).

Inductive result (A : Type) : Type :=
| OK (a : A)
| Raise (e : exn).
Arguments OK {A} a.
Arguments Raise {A} e.

Definition bind {A B} (r : result A) (k : A -> result B) : result B :=
  match r with
  | OK a => k a
  | Raise e => Raise e
  end.

(** The [ValueError]s the source raises, under the names the
    specification gives them. *)
Definition EmptyInput : exn := ValueError "text must be non-empty".
Definition MissingHeader : exn :=
  ValueError "Encoded input must begin with the '##00' header".
Definition DanglingEscape : exn :=
  ValueError "Dangling escape '#' at end of encoded string".
Definition InvalidEscape : exn :=
  ValueError "Invalid escape sequence: '#' must be followed by '#' or a digit".

(** ** Unicode digit classes

    [str.isdecimal], the class [\d] of [re] on [str] patterns and the
    digits [int()] converts are the code points of category Nd; the
    table is the one of Unicode 14.0 (CPython 3.11), as inclusive
    ranges.  Each range starts at a digit zero and holds whole decades,
    so the value of a digit is its offset in the range modulo 10. *)

Definition in_range (c : char) (r : N * N) : bool :=
  (fst r <=? c) && (c <=? snd r).

Definition in_ranges (rs : list (N * N)) (c : char) : bool :=
  existsb (in_range c) rs.

Definition decimal_ranges : list (N * N) :=
  [(48, 57); (1632, 1641); (1776, 1785); (1984, 1993); (2406, 2415);
   (2534, 2543); (2662, 2671); (2790, 2799); (2918, 2927); (3046, 3055);
   (3174, 3183); (3302, 3311); (3430, 3439); (3558, 3567); (3664, 3673);
   (3792, 3801); (3872, 3881); (4160, 4169); (4240, 4249); (6112, 6121);
   (6160, 6169); (6470, 6479); (6608, 6617); (6784, 6793); (6800, 6809);
   (6992, 7001); (7088, 7097); (7232, 7241); (7248, 7257); (42528, 42537);
   (43216, 43225); (43264, 43273); (43472, 43481); (43504, 43513);
   (43600, 43609); (44016, 44025); (65296, 65305); (66720, 66729);
   (68912, 68921); (69734, 69743); (69872, 69881); (69942, 69951);
   (70096, 70105); (70384, 70393); (70736, 70745); (70864, 70873);
   (71248, 71257); (71360, 71369); (71472, 71481); (71904, 71913);
   (72016, 72025); (72784, 72793); (73040, 73049); (73120, 73129);
   (92768, 92777); (92864, 92873); (93008, 93017); (120782, 120831);
   (123200, 123209); (123632, 123641); (125264, 125273); (130032, 130041)].

(** Code points that [str.isdigit] accepts and that are not decimal:
    superscripts, subscripts, circled and dingbat digits and the like
    (Numeric_Type=Digit). *)
Definition other_digit_ranges : list (N * N) :=
  [(178, 179); (185, 185); (4969, 4977); (6618, 6618); (8304, 8304);
   (8308, 8313); (8320, 8329); (9312, 9320); (9332, 9340); (9352, 9360);
   (9450, 9450); (9461, 9469); (9471, 9471); (10102, 10110); (10112, 10120);
   (10122, 10130); (68160, 68163); (69216, 69224); (69714, 69722);
   (127232, 127242)].

Definition isdecimal (c : char) : bool := in_ranges decimal_ranges c.

Definition isdigit (c : char) : bool :=
  isdecimal c || in_ranges other_digit_ranges c.

Definition decimal_value (c : char) : N :=
  match find (in_range c) decimal_ranges with
  | Some r => (c - fst r) mod 10
  | None => 0
  end.

(** [int(digits)] for a string of decimal digits.  (CPython refuses
    strings of more than 4300 digits by default; that cap is one of the
    limits left out, see the head of the file.) *)
Definition int (ds : str) : N :=
  fold_left (fun acc c => 10 * acc + decimal_value c) ds 0.

(** [str(n)] for a non-negative integer: its decimal digits in ASCII. *)
Fixpoint chars_of_uint (u : Decimal.uint) : str :=
  match u with
  | Decimal.Nil => []
  | Decimal.D0 u => 48 :: chars_of_uint u
  | Decimal.D1 u => 49 :: chars_of_uint u
  | Decimal.D2 u => 50 :: chars_of_uint u
  | Decimal.D3 u => 51 :: chars_of_uint u
  | Decimal.D4 u => 52 :: chars_of_uint u
  | Decimal.D5 u => 53 :: chars_of_uint u
  | Decimal.D6 u => 54 :: chars_of_uint u
  | Decimal.D7 u => 55 :: chars_of_uint u
  | Decimal.D8 u => 56 :: chars_of_uint u
  | Decimal.D9 u => 57 :: chars_of_uint u
  end.

Definition str_of_int (n : N) : str := chars_of_uint (N.to_uint n).

(** ** The encoder *)

Definition HEADER : str := py "##00".
Arguments HEADER : simpl never.

Definition _encode_token (ch : char) : str :=
  if ch =? HASH then py "##"
  else if isdigit ch then HASH :: [ch]
  else [ch].

(** The state of the loop of [rle_encode]: the parts emitted so far,
    the character of the current run and its length. *)
Record enc_state : Type := mk_enc {
  out_parts : list str;
  cur : char;
  cnt : N
}.

(** Emit the run [(cur, cnt)]: its token, and its count when above 1. *)
Definition emit_run (st : enc_state) : list str :=
  let tok := _encode_token (cur st) in
  let out := out_parts st ++ [tok] in
  if 1 <? cnt st then out ++ [str_of_int (cnt st)] else out.

(** One iteration of [for ch in text[1:]]. *)
Definition encode_step (st : enc_state) (ch : char) : enc_state :=
  if ch =? cur st then mk_enc (out_parts st) (cur st) (cnt st + 1)
  else mk_enc (emit_run st) ch 1.

(** [text] is a [str] by its type, so the [isinstance] test passes and
    no [TypeError] is raised; likewise in [rle_decode]. *)
Definition rle_encode (text : str) : result str :=
  match text with
  | [] => Raise EmptyInput
  | c0 :: rest =>
      let st := fold_left encode_step rest (mk_enc [HEADER] c0 1) in
      OK (concat (emit_run st))
  end.

(** ** The decoder *)

Fixpoint startswith (s prefix : str) {struct prefix} : bool :=
  match prefix, s with
  | [], _ => true
  | p :: prefix', c :: s' => (c =? p) && startswith s' prefix'
  | _ :: _, [] => false
  end.

(** The greedy [\d*]: the longest prefix of decimal digits, and what
    follows it. *)
Fixpoint span_decimal (s : str) : str * str :=
  match s with
  | c :: s' =>
      if isdecimal c then
        let (ds, rest) := span_decimal s' in (c :: ds, rest)
      else ([], s)
  | [] => ([], [])
  end.

(** [_COUNT_RE.match(s, start)], on [s[start:]]: the pattern is
    [[1-9]\d*]; a match gives [m.group(0)] and [s[m.end():]]. *)
Definition _COUNT_RE_match (s : str) : option (str * str) :=
  match s with
  | c :: s' =>
      if (49 <=? c) && (c <=? 57) then
        let (ds, rest) := span_decimal s' in Some (c :: ds, rest)
      else None
  | [] => None
  end.

(** [_read_count(start)], on [s[start:]]: the count and [s[next_index:]]. *)
Definition _read_count (s : str) : N * str :=
  match _COUNT_RE_match s with
  | None => (1, s)
  | Some (g, rest) => (int g, rest)
  end.

(** [literal * count] for a one-character [literal].  (The
    interpreter cannot build a string beyond its memory, nor one of
    2^63 characters or more; a stream with such a count is outside
    the model, see the head of the file.) *)
Definition str_mul (literal : char) (count : N) : str :=
  repeat literal (N.to_nat count).

(** The literal of the token that starts with [ch] at [s[i]], and
    [s[i:]] after the cursor has moved past it; [s'] is [s[i+1:]]. *)
Definition read_literal (ch : char) (s' : str) : result (char * str) :=
  if ch =? HASH then
    match s' with
    | [] => Raise DanglingEscape
    | nxt :: s'' =>
        if nxt =? HASH then OK (HASH, s'')
        else if isdigit nxt then OK (nxt, s'')
        else Raise InvalidEscape
    end
  else OK (ch, s').

(** One iteration of [while i < n]: the text appended to [out] and the
    rest of the body. *)
Definition decode_token (ch : char) (s' : str) : result (str * str) :=
  bind (read_literal ch s') (fun '(literal, s'') =>
    let (count, rest) := _read_count s'' in
    OK (str_mul literal count, rest)).

Lemma span_decimal_length s :
  (length (snd (span_decimal s)) <= length s)%nat.
Proof.
  induction s as [|c s IH]; simpl; [lia|].
  destruct (isdecimal c); simpl; [|lia].
  destruct (span_decimal s); simpl in *; lia.
Qed.

Lemma _read_count_length s :
  (length (snd (_read_count s)) <= length s)%nat.
Proof.
  unfold _read_count, _COUNT_RE_match.
  destruct s as [|c s]; simpl; [lia|].
  destruct ((49 <=? c) && (c <=? 57)); simpl; [|lia].
  pose proof (span_decimal_length s).
  destruct (span_decimal s); simpl in *; lia.
Qed.

Lemma decode_token_length ch s' piece rest :
  decode_token ch s' = OK (piece, rest) ->
  (length rest <= length s')%nat.
Proof.
  unfold decode_token, read_literal.
  destruct (ch =? HASH).
  - destruct s' as [|nxt s'']; simpl; [discriminate|].
    pose proof (_read_count_length s'').
    destruct (nxt =? HASH); [|destruct (isdigit nxt)]; simpl;
      try discriminate;
      destruct (_read_count s''); intros [= <- <-]; simpl in *; lia.
  - simpl. pose proof (_read_count_length s').
    destruct (_read_count s'); intros [= <- <-]; simpl in *; lia.
Qed.

(** A value together with the equation that it is the value of the
    expression matched on, for the termination argument of the loop. *)
Definition inspect {A} (a : A) : {b : A | a = b} := exist _ a eq_refl.

(** The loop [while i < n] on the body [s[i:]], with the parts
    collected so far; it ends in the join of [out]. *)
Equations? decode_loop (s : str) (out : list str) : result str
  by wf (length s) lt :=
  decode_loop [] out := OK (concat out);
  decode_loop (ch :: s') out with inspect (decode_token ch s') := {
    | exist _ (Raise e) _ := Raise e;
    | exist _ (OK (piece, rest)) H := decode_loop rest (out ++ [piece]) }.
Proof.
  apply decode_token_length in H. simpl. lia.
Qed.

(** [encoded[4:]] is [skipn 4 encoded]. *)
Definition rle_decode (encoded : str) : result str :=
  if startswith encoded HEADER then decode_loop (skipn 4 encoded) []
  else Raise MissingHeader.

(** ** The command line

    [_prompt] and [main] read with [input] and write with [print].
    The standard input is the list of the lines that [input] returns,
    in order; what the program writes is a list of events.  At the end
    of the input [input] raises [EOFError], which neither function
    catches. *)

Inductive event : Type :=
| Prompt (text : list char)
| Print (line : list char).

Inductive io (A : Type) : Type :=
| Returns (a : A)
| EOFError.
Arguments Returns {A} a.
Arguments EOFError {A}.

Definition NEWLINE : char := 10.

Definition PROMPT_TEXT : str :=
  py "Enter text (starts with '##00' to decode; otherwise encode): ".

Definition EMPTY_NOTICE : str :=
  py "Invalid input: input cannot be empty.".

(** [s.rstrip("\n")]: [s] without its trailing newlines. *)
Fixpoint rstrip_newline (s : str) : str :=
  match s with
  | [] => []
  | c :: s' =>
      match rstrip_newline s' with
      | [] => if c =? NEWLINE then [] else [c]
      | r => c :: r
      end
  end.

(** [_prompt()]: what is written, and the text returned together with
    the input left unread. *)
Fixpoint _prompt (stdin : list str) : list event * io (str * list str) :=
  match stdin with
  | [] => ([Prompt PROMPT_TEXT], EOFError)
  | line :: stdin' =>
      match rstrip_newline line with
      | [] =>
          let (events, r) := _prompt stdin' in
          (Prompt PROMPT_TEXT :: Print EMPTY_NOTICE :: events, r)
      | s => ([Prompt PROMPT_TEXT], Returns (s, stdin'))
      end
  end.

(** [str(ex)] for the exceptions of the codec. *)
Definition exn_message (ex : exn) : str :=
  match ex with
  | TypeError msg => py msg
  | ValueError msg => py msg
  end.

(** The [try] block of [main]: the line printed for [user_text]. *)
Definition main_line (user_text : str) : str :=
  if startswith user_text HEADER then
    match rle_decode user_text with
    | OK decoded => py "Decoded => " ++ decoded
    | Raise ex => py "Error: " ++ exn_message ex
    end
  else
    match rle_encode user_text with
    | OK encoded => py "Encoded => " ++ encoded
    | Raise ex => py "Error: " ++ exn_message ex
    end.

Definition main (stdin : list str) : list event * io unit :=
  let (events, r) := _prompt stdin in
  match r with
  | Returns (user_text, _) =>
      (events ++ [Print (main_line user_text)], Returns tt)
  | EOFError => (events, EOFError)
  end.

(** ** Vocabulary of the properties *)

(** The ASCII digits, which [str] produces. *)
Definition ascii_digit (c : char) : Prop := 48 <= c <= 57.

(** The text does not start with a decimal digit. *)
Definition no_decimal_head (s : str) : bool :=
  match s with
  | [] => true
  | c :: _ => negb (isdecimal c)
  end.

(** What [rle_encode] emits for a run of [n] times [c]. *)
Definition run_token (c : char) (n : N) : str :=
  _encode_token c ++ (if 1 <? n then str_of_int n else []).

(** No character of [s] equals its immediate successor. *)
Fixpoint no_repeat (s : str) : bool :=
  match s with
  | c :: (d :: _) as s' => negb (c =? d) && no_repeat s'
  | _ => true
  end.

(** A line that [_prompt] rejects: nothing but newlines. *)
Definition blank (line : str) : Prop := rstrip_newline line = [].

(** What [_prompt] writes when it rejects the lines [blanks]. *)
Definition notices (blanks : list str) : list event :=
  concat (map (fun _ => [Prompt PROMPT_TEXT; Print EMPTY_NOTICE]) blanks).

(** The token representation in words: ['#'] is written ["##"], a
    digit [d] is written ['#'] and [d], any other character stands for
    itself; [digit] says which characters count as digits. *)
Definition token_map (digit : char -> bool) (c : char) : str :=
  if c =? 35 then [35; 35]
  else if digit c then [35; c]
  else [c].

(** The decimal digits 0 to 9. *)
Definition is_0_to_9 (c : char) : bool := (48 <=? c) && (c <=? 57).


(** A character that needs no escape: neither ['#'] nor a digit. *)
Definition plain (c : char) : Prop := c <> HASH /\ isdigit c = false.

(** * Properties *)

(** ** Digit classes *)

Lemma in_ranges_In rs c r :
  In r rs -> fst r <= c <= snd r -> in_ranges rs c = true.
Proof.
  intros Hin [Hlo Hhi]. apply existsb_exists. exists r. split; [exact Hin|].
  unfold in_range. apply andb_true_intro. split; now apply N.leb_le.
Qed.

Lemma isdecimal_ascii c : ascii_digit c -> isdecimal c = true.
Proof.
  intros H. apply in_ranges_In with (r := (48, 57)); [left; reflexivity|exact H].
Qed.

Lemma isdecimal_isdigit c : isdecimal c = true -> isdigit c = true.
Proof. intros H. unfold isdigit. now rewrite H. Qed.

Lemma isdigit_ascii c : ascii_digit c -> isdigit c = true.
Proof. intros H. now apply isdecimal_isdigit, isdecimal_ascii. Qed.

Lemma decimal_value_ascii c : ascii_digit c -> decimal_value c = c - 48.
Proof.
  intros [Hlo Hhi]. unfold decimal_value.
  assert (E : in_range c (48, 57) = true).
  { unfold in_range. apply andb_true_intro. split; now apply N.leb_le. }
  unfold decimal_ranges. cbn [find]. rewrite E. cbn [fst].
  apply N.mod_small. lia.
Qed.

Lemma not_decimal_not_1_9 c :
  isdecimal c = false -> (49 <=? c) && (c <=? 57) = false.
Proof.
  intros H. destruct ((49 <=? c) && (c <=? 57)) eqn:E; [|reflexivity].
  apply andb_prop in E as [E1 E2]. apply N.leb_le in E1, E2.
  rewrite isdecimal_ascii in H; [discriminate|unfold ascii_digit; lia].
Qed.

(** ** [str] and [int] on counts *)

Lemma chars_of_uint_ascii u : Forall ascii_digit (chars_of_uint u).
Proof.
  induction u; simpl; constructor; trivial; unfold ascii_digit; lia.
Qed.

Lemma int_chars_of_uint u acc :
  fold_left (fun a c => 10 * a + decimal_value c) (chars_of_uint u)
            (DecimalPos.Unsigned.of_lu acc)
  = DecimalPos.Unsigned.of_lu (Decimal.revapp u acc).
Proof.
  revert acc. induction u; intros acc; simpl chars_of_uint;
    [reflexivity|..]; cbn [fold_left Decimal.revapp]; rewrite <- IHu;
    f_equal; rewrite decimal_value_ascii by (unfold ascii_digit; lia);
    cbn [DecimalPos.Unsigned.of_lu]; lia.
Qed.

Lemma int_str_of_int n : int (str_of_int n) = n.
Proof.
  unfold int, str_of_int.
  change 0 with (DecimalPos.Unsigned.of_lu Decimal.Nil).
  rewrite int_chars_of_uint.
  change (Decimal.revapp (N.to_uint n) Decimal.Nil) with (Decimal.rev (N.to_uint n)).
  rewrite <- DecimalPos.Unsigned.of_uint_alt.
  apply DecimalN.Unsigned.of_to.
Qed.

Lemma span_decimal_ascii ds :
  Forall ascii_digit ds -> span_decimal ds = (ds, []).
Proof.
  induction 1 as [|c ds Hc _ IH]; simpl; [reflexivity|].
  now rewrite (isdecimal_ascii c Hc), IH.
Qed.

(** The decimal string of a positive integer starts with a digit from
    1 to 9. *)
Lemma str_of_int_pos n :
  0 < n ->
  exists c ds, str_of_int n = c :: ds /\ 49 <= c <= 57 /\ Forall ascii_digit ds.
Proof.
  intros Hn. unfold str_of_int.
  pose proof (chars_of_uint_ascii (N.to_uint n)) as Hall.
  assert (Hnorm : Decimal.unorm (N.to_uint n) = N.to_uint n).
  { rewrite <- DecimalN.Unsigned.to_of. now rewrite DecimalN.Unsigned.of_to. }
  assert (Hnz : N.to_uint n <> Decimal.zero).
  { destruct n as [|p]; [lia|]. apply DecimalPos.Unsigned.to_uint_nonzero. }
  assert (Hhd : Decimal.nzhead (N.to_uint n) = N.to_uint n).
  { rewrite <- Hnorm at 2. symmetry. apply DecimalFacts.unorm_nzhead.
    intros E. apply Hnz. rewrite <- Hnorm. now apply DecimalFacts.unorm_0. }
  destruct (N.to_uint n) as [|u|u|u|u|u|u|u|u|u|u];
    [ exfalso; exact (DecimalFacts.unorm_nonnil _ Hnorm)
    | exfalso; exact (DecimalFacts.nzhead_nonzero _ _ Hhd)
    | .. ];
    simpl chars_of_uint in *; inversion Hall; subst;
    eexists; eexists; (split; [reflexivity|split; [lia|assumption]]).
Qed.

Lemma _read_count_str_of_int n :
  0 < n -> _read_count (str_of_int n) = (n, []).
Proof.
  intros Hn. pose proof (int_str_of_int n) as Hint.
  destruct (str_of_int_pos n Hn) as (c & ds & E & Hc & Hds).
  unfold _read_count, _COUNT_RE_match. rewrite E in *.
  replace ((49 <=? c) && (c <=? 57)) with true
    by (symmetry; apply andb_true_intro; split; apply N.leb_le; lia).
  rewrite (span_decimal_ascii ds Hds). now rewrite Hint.
Qed.

(** ** The decoding loop *)

Lemma decode_loop_cons ch s' out :
  decode_loop (ch :: s') out =
  match decode_token ch s' with
  | OK (piece, rest) => decode_loop rest (out ++ [piece])
  | Raise e => Raise e
  end.
Proof.
  simp decode_loop.
  destruct (inspect (decode_token ch s')) as [[[piece rest]|e] H];
    simp decode_loop; rewrite H; reflexivity.
Qed.

(** The parts collected so far only prefix the result. *)
Lemma decode_loop_out s :
  forall out,
    decode_loop s out =
    bind (decode_loop s []) (fun r => OK (concat out ++ r)).
Proof.
  remember (length s) as n eqn:Hn. revert s Hn.
  induction n as [n IH] using lt_wf_ind. intros s Hn out.
  destruct s as [|ch s'].
  - simp decode_loop. simpl. now rewrite app_nil_r.
  - rewrite !decode_loop_cons.
    destruct (decode_token ch s') as [[piece rest]|e] eqn:E; [|reflexivity].
    apply decode_token_length in E.
    assert (Hlt : (length rest < n)%nat) by (subst n; simpl; lia).
    rewrite (IH _ Hlt rest eq_refl (out ++ [piece])).
    rewrite (IH _ Hlt rest eq_refl ([] ++ [piece])).
    destruct (decode_loop rest []) as [r|e]; simpl; [|reflexivity].
    rewrite concat_app. simpl. now rewrite !app_nil_r, <- app_assoc.
Qed.

(** The loop on a non-empty body, one token at a time. *)
Lemma decode_loop_token ch s' :
  decode_loop (ch :: s') [] =
  bind (decode_token ch s') (fun '(piece, rest) =>
    bind (decode_loop rest []) (fun r => OK (piece ++ r))).
Proof.
  rewrite decode_loop_cons.
  destruct (decode_token ch s') as [[piece rest]|e]; [|reflexivity].
  rewrite decode_loop_out. simpl. now rewrite app_nil_r.
Qed.

(** ** Decoding a body followed by more text

    What follows a body that decodes does not change how the body is
    read, unless it starts with a decimal digit (which would extend, or
    start, the count of the last token). *)

Lemma span_decimal_app s suf :
  no_decimal_head suf = true ->
  span_decimal (s ++ suf) =
  (fst (span_decimal s), snd (span_decimal s) ++ suf).
Proof.
  intros Hsuf. induction s as [|c s IH]; simpl.
  - destruct suf as [|c suf]; [reflexivity|]. simpl in *.
    apply negb_true_iff in Hsuf. now rewrite Hsuf.
  - destruct (isdecimal c); [|reflexivity].
    rewrite IH. now destruct (span_decimal s).
Qed.

Lemma _read_count_app s suf :
  no_decimal_head suf = true ->
  _read_count (s ++ suf) =
  (fst (_read_count s), snd (_read_count s) ++ suf).
Proof.
  intros Hsuf. unfold _read_count, _COUNT_RE_match.
  destruct s as [|c s]; simpl.
  - destruct suf as [|c suf]; [reflexivity|]. simpl in Hsuf.
    apply negb_true_iff in Hsuf. now rewrite (not_decimal_not_1_9 c Hsuf).
  - destruct ((49 <=? c) && (c <=? 57)); [|reflexivity].
    rewrite (span_decimal_app s suf Hsuf). now destruct (span_decimal s).
Qed.

Lemma read_literal_app ch s' suf literal s'' :
  read_literal ch s' = OK (literal, s'') ->
  read_literal ch (s' ++ suf) = OK (literal, s'' ++ suf).
Proof.
  unfold read_literal. destruct (ch =? HASH).
  - destruct s' as [|nxt s3]; [discriminate|]. simpl.
    destruct (nxt =? HASH); [|destruct (isdigit nxt)];
      intros [= <- <-] || discriminate; reflexivity.
  - intros [= <- <-]. reflexivity.
Qed.

Lemma decode_token_app ch s' suf piece rest :
  no_decimal_head suf = true ->
  decode_token ch s' = OK (piece, rest) ->
  decode_token ch (s' ++ suf) = OK (piece, rest ++ suf).
Proof.
  intros Hsuf. unfold decode_token.
  destruct (read_literal ch s') as [[literal s'']|e] eqn:E; [|discriminate].
  rewrite (read_literal_app _ _ suf _ _ E). simpl.
  rewrite (_read_count_app s'' suf Hsuf).
  destruct (_read_count s'') as [count r]. simpl.
  now intros [= <- <-].
Qed.

Lemma decode_loop_app pre :
  forall d suf,
    decode_loop pre [] = OK d ->
    no_decimal_head suf = true ->
    decode_loop (pre ++ suf) [] =
    bind (decode_loop suf []) (fun r => OK (d ++ r)).
Proof.
  remember (length pre) as n eqn:Hn. revert pre Hn.
  induction n as [n IH] using lt_wf_ind. intros pre Hn d suf Hd Hsuf.
  destruct pre as [|ch s'].
  - simp decode_loop in Hd. injection Hd as <-. simpl.
    now destruct (decode_loop suf []).
  - rewrite decode_loop_token in Hd. simpl app. rewrite decode_loop_token.
    destruct (decode_token ch s') as [[piece rest]|e] eqn:E; [|discriminate].
    rewrite (decode_token_app _ _ suf _ _ Hsuf E). simpl in *.
    destruct (decode_loop rest []) as [r|e] eqn:Er; [|discriminate].
    simpl in Hd. injection Hd as <-.
    apply decode_token_length in E.
    assert (Hlt : (length rest < n)%nat) by (subst n; simpl; lia).
    rewrite (IH _ Hlt rest eq_refl r suf Er Hsuf).
    destruct (decode_loop suf []) as [r'|e]; simpl; [|reflexivity].
    now rewrite app_assoc.
Qed.

(** ** Runs and their tokens *)

Lemma concat_emit_run st :
  concat (emit_run st) = concat (out_parts st) ++ run_token (cur st) (cnt st).
Proof.
  unfold emit_run, run_token. destruct (1 <? cnt st);
    rewrite !concat_app; simpl; now rewrite ?app_nil_r, ?app_assoc.
Qed.

Lemma _read_count_run n :
  0 < n ->
  _read_count (if 1 <? n then str_of_int n else []) = (n, []).
Proof.
  intros Hn. destruct (1 <? n) eqn:E.
  - now apply _read_count_str_of_int.
  - apply N.ltb_ge in E. assert (n = 1) as -> by lia. reflexivity.
Qed.

Lemma decode_token_run c n :
  0 < n ->
  match run_token c n with
  | ch :: s' => decode_token ch s' = OK (str_mul c n, [])
  | [] => False
  end.
Proof.
  intros Hn. unfold run_token, _encode_token.
  destruct (c =? HASH) eqn:Ec; [|destruct (isdigit c) eqn:Ed].
  - apply N.eqb_eq in Ec. subst c.
    change (py "##") with [HASH; HASH]. cbn [app].
    unfold decode_token, read_literal. rewrite N.eqb_refl. cbn [bind].
    now rewrite (_read_count_run n Hn).
  - cbn [app]. unfold decode_token, read_literal.
    rewrite N.eqb_refl, Ec, Ed. cbn [bind].
    now rewrite (_read_count_run n Hn).
  - cbn [app]. unfold decode_token, read_literal. rewrite Ec. cbn [bind].
    now rewrite (_read_count_run n Hn).
Qed.

Lemma decode_run_token c n :
  0 < n -> decode_loop (run_token c n) [] = OK (str_mul c n).
Proof.
  intros Hn. pose proof (decode_token_run c n Hn) as H.
  destruct (run_token c n) as [|ch s']; [contradiction|].
  rewrite decode_loop_token, H. simpl. simp decode_loop. simpl.
  now rewrite app_nil_r.
Qed.

Lemma run_token_head c n : no_decimal_head (run_token c n) = true.
Proof.
  unfold run_token, _encode_token.
  destruct (c =? HASH) eqn:Ec; [reflexivity|].
  destruct (isdigit c) eqn:Ed; [reflexivity|]. simpl.
  destruct (isdecimal c) eqn:E; [|reflexivity].
  apply isdecimal_isdigit in E. congruence.
Qed.

Lemma str_mul_succ c n rest :
  str_mul c n ++ c :: rest = str_mul c (n + 1) ++ rest.
Proof.
  unfold str_mul. rewrite N.add_1_r, N2Nat.inj_succ.
  change (c :: rest) with ([c] ++ rest). rewrite app_assoc.
  now rewrite <- repeat_cons.
Qed.

(** ** The loop of the encoder

    Whatever the state, if the parts emitted so far are the header and
    a body that decodes to [d], then after the loop over [rest] and the
    final run the parts are the header and a body that decodes to [d],
    the pending run and [rest]. *)
Lemma encode_loop_decodes rest :
  forall st b d,
    concat (out_parts st) = HEADER ++ b ->
    decode_loop b [] = OK d ->
    0 < cnt st ->
    exists b',
      concat (emit_run (fold_left encode_step rest st)) = HEADER ++ b' /\
      decode_loop b' [] = OK (d ++ str_mul (cur st) (cnt st) ++ rest).
Proof.
  induction rest as [|ch rest IH]; intros st b d Hout Hd Hcnt.
  - cbn [fold_left]. exists (b ++ run_token (cur st) (cnt st)). split.
    + now rewrite concat_emit_run, Hout, app_assoc.
    + rewrite (decode_loop_app b d _ Hd (run_token_head _ _)).
      rewrite decode_run_token by exact Hcnt. cbn [bind].
      now rewrite app_nil_r.
  - cbn [fold_left]. unfold encode_step at 2.
    destruct (ch =? cur st) eqn:E.
    + apply N.eqb_eq in E. subst ch.
      destruct (IH (mk_enc (out_parts st) (cur st) (cnt st + 1)) b d)
        as (b' & Hb' & Hdec); cbn [out_parts cur cnt] in *;
        [assumption|assumption|lia|].
      exists b'. split; [exact Hb'|].
      rewrite Hdec. now rewrite str_mul_succ.
    + destruct (IH (mk_enc (emit_run st) ch 1)
                   (b ++ run_token (cur st) (cnt st))
                   (d ++ str_mul (cur st) (cnt st)))
        as (b' & Hb' & Hdec); cbn [out_parts cur cnt] in *.
      * now rewrite concat_emit_run, Hout, app_assoc.
      * rewrite (decode_loop_app b d _ Hd (run_token_head _ _)).
        now rewrite decode_run_token by exact Hcnt.
      * lia.
      * exists b'. split; [exact Hb'|].
        rewrite Hdec. now rewrite <- app_assoc.
Qed.

Lemma rle_decode_strip_header b : rle_decode (HEADER ++ b) = decode_loop b [].
Proof.
  unfold rle_decode. change HEADER with [35; 35; 48; 48]. reflexivity.
Qed.

(** ** Round trip *)

(** C1: for every non-empty string [s], over all code points,
    [rle_encode] returns a stream that [rle_decode] turns back into
    [s], character for character. *)
Theorem rle_roundtrip (s : str) :
  s <> [] ->
  exists e, rle_encode s = OK e /\ rle_decode e = OK s.
Proof.
  intros Hs. destruct s as [|c0 rest]; [contradiction|].
  unfold rle_encode.
  destruct (encode_loop_decodes rest (mk_enc [HEADER] c0 1) [] [])
    as (b' & Hb' & Hdec); cbn [out_parts cur cnt] in *.
  - cbn [concat]. now rewrite !app_nil_r.
  - now simp decode_loop.
  - lia.
  - eexists. split; [reflexivity|].
    rewrite Hb', rle_decode_strip_header, Hdec. reflexivity.
Qed.

Lemma rle_roundtrip_witness :
  py "AA#5 5" <> [] /\
  exists e, rle_encode (py "AA#5 5") = OK e /\ rle_decode e = OK (py "AA#5 5").
Proof.
  split; [discriminate|]. apply rle_roundtrip. discriminate.
Defined.

(** ** Literal scenarios *)

(** C4: the literal scenarios of the encoder. *)
Theorem rle_encode_scenarios :
  rle_encode (py "A") = OK (py "##00A") /\
  rle_encode (py "AAAA") = OK (py "##00A4") /\
  rle_encode (py "#") = OK (py "##00##") /\
  rle_encode (py "###") = OK (py "##00##3") /\
  rle_encode (py "5") = OK (py "##00#5") /\
  rle_encode (py "555") = OK (py "##00#53") /\
  rle_encode (py "B12") = OK (py "##00B#1#2").
Proof. repeat split; reflexivity. Qed.

(** The scenarios of the docstring of [rle_decode] that hold. *)
Example rle_decode_docstring :
  rle_decode (py "##00A4") = OK (py "AAAA") /\
  rle_decode (py "##00##3") = OK (py "###") /\
  rle_decode (py "##00#53") = OK (py "555") /\
  rle_decode (py "##00B#1#2") = OK (py "B12").
Proof. repeat split; reflexivity. Qed.

(** C3: at the stream of the example, ["##00Z#10##2A"], the code
    returns ["Z10##A"]: the escape ["#1"] is the literal 1 and the
    unescaped 0 after it is taken as a plain literal.  The example in
    the docstring of [rle_decode] states ["Z0##A"]. *)
Theorem rle_decode_Z_example :
  rle_decode (py "##00Z#10##2A") = OK (py "Z10##A") /\
  rle_decode (py "##00Z#10##2A") <> OK (py "Z0##A").
Proof. split; [reflexivity|discriminate]. Qed.

(** The stream that [rle_encode] writes for ["Z0##A"] has one escaped
    0, and decodes to it. *)
Example rle_Z0_stream :
  rle_encode (py "Z0##A") = OK (py "##00Z#0##2A") /\
  rle_decode (py "##00Z#0##2A") = OK (py "Z0##A").
Proof. split; reflexivity. Qed.

(** C10: a stream that is only the header decodes to the empty
    string, without an error. *)
Theorem rle_decode_header_only : rle_decode (py "##00") = OK [].
Proof. reflexivity. Qed.

(** ** The header *)

Lemma startswith_spec prefix :
  forall s, startswith s prefix = true <-> exists b, s = prefix ++ b.
Proof.
  induction prefix as [|p prefix IH]; intros s; simpl.
  - split; [intros _; now exists s|reflexivity].
  - destruct s as [|c s].
    + split; [discriminate|intros [b Hb]; discriminate].
    + rewrite andb_true_iff, N.eqb_eq, IH. split.
      * intros [-> [b ->]]. now exists b.
      * intros [b [= -> ->]]. split; [reflexivity|now exists b].
Qed.

(** C6: a string that does not begin with the four characters
    ["##00"] is rejected with the missing-header error. *)
Theorem rle_decode_missing_header (encoded : str) :
  (forall body, encoded <> py "##00" ++ body) ->
  rle_decode encoded = Raise MissingHeader.
Proof.
  intros H. unfold rle_decode.
  destruct (startswith encoded HEADER) eqn:E; [|reflexivity].
  apply startswith_spec in E as [b Hb]. exfalso. exact (H b Hb).
Qed.

Lemma rle_decode_missing_header_witness :
  (forall body, py "A4" <> py "##00" ++ body) /\
  rle_decode (py "A4") = Raise MissingHeader.
Proof.
  assert (H : forall body, py "A4" <> py "##00" ++ body)
    by (intros body; discriminate).
  split; [exact H|]. exact (rle_decode_missing_header (py "A4") H).
Defined.

(** ** The encoder returns, with the header in front *)

Lemma encode_loop_header rest :
  forall st b,
    concat (out_parts st) = HEADER ++ b ->
    exists b', concat (emit_run (fold_left encode_step rest st)) = HEADER ++ b'.
Proof.
  induction rest as [|ch rest IH]; intros st b Hout; cbn [fold_left].
  - exists (b ++ run_token (cur st) (cnt st)).
    now rewrite concat_emit_run, Hout, app_assoc.
  - unfold encode_step at 2. destruct (ch =? cur st).
    + now apply (IH _ b).
    + apply (IH _ (b ++ run_token (cur st) (cnt st))). cbn [out_parts].
      now rewrite concat_emit_run, Hout, app_assoc.
Qed.

(** C7: [rle_encode] raises exactly on the empty string, and then
    the empty-input error; on every other string it returns. *)
Theorem rle_encode_raises_iff_empty (text : str) :
  ((exists e, rle_encode text = Raise e) <-> text = []) /\
  (text = [] -> rle_encode text = Raise EmptyInput) /\
  (text <> [] -> exists encoded, rle_encode text = OK encoded).
Proof.
  destruct text as [|c0 rest]; cbn [rle_encode].
  - repeat split; trivial; [now exists EmptyInput|congruence].
  - repeat split; try discriminate.
    + intros [e He]. discriminate.
    + intros _. eexists. reflexivity.
Qed.

Lemma rle_encode_raises_iff_empty_witness :
  rle_encode [] = Raise EmptyInput /\
  exists encoded, rle_encode (py "AAAA") = OK encoded.
Proof.
  split.
  - apply (rle_encode_raises_iff_empty []). reflexivity.
  - apply (rle_encode_raises_iff_empty (py "AAAA")). discriminate.
Defined.

(** C8: on a non-empty string [rle_encode] returns a string that
    begins with the four characters ["##00"]. *)
Theorem rle_encode_header (text : str) :
  text <> [] ->
  exists body, rle_encode text = OK (py "##00" ++ body).
Proof.
  intros H. destruct text as [|c0 rest]; [contradiction|].
  destruct (encode_loop_header rest (mk_enc [HEADER] c0 1) [])
    as [b' Hb'].
  - cbn [out_parts concat]. now rewrite !app_nil_r.
  - exists b'. cbn [rle_encode]. now rewrite Hb'.
Qed.

Lemma rle_encode_header_witness :
  py "B12" <> [] /\
  exists body, rle_encode (py "B12") = OK (py "##00" ++ body).
Proof.
  split; [discriminate|]. apply rle_encode_header. discriminate.
Defined.

(** ** Strings without consecutive repetition *)

(** The token of a character, case by case: ['#'] is doubled, a digit
    (for [str.isdigit]; the ASCII digits are such) is escaped, any
    other character stands for itself. *)
Lemma _encode_token_cases c :
  (c = HASH -> _encode_token c = [HASH; HASH]) /\
  (ascii_digit c -> _encode_token c = [HASH; c]) /\
  (c <> HASH -> isdigit c = false -> _encode_token c = [c]).
Proof.
  unfold _encode_token. repeat split.
  - now intros ->.
  - intros H. rewrite (isdigit_ascii c H).
    destruct (c =? HASH) eqn:E; [|reflexivity].
    apply N.eqb_eq in E. unfold ascii_digit, HASH in *. lia.
  - intros Hc Hd. apply N.eqb_neq in Hc. now rewrite Hc, Hd.
Qed.

Lemma encode_loop_singletons rest :
  forall st,
    cnt st = 1 ->
    no_repeat (cur st :: rest) = true ->
    concat (emit_run (fold_left encode_step rest st)) =
    concat (out_parts st) ++ concat (map _encode_token (cur st :: rest)).
Proof.
  induction rest as [|ch rest IH]; intros st Hcnt Hnr; cbn [fold_left].
  - rewrite concat_emit_run. unfold run_token. rewrite Hcnt.
    cbn [map concat N.ltb]. reflexivity.
  - cbn [no_repeat] in Hnr. apply andb_prop in Hnr as [Hne Hnr].
    apply negb_true_iff in Hne. rewrite N.eqb_sym in Hne.
    unfold encode_step at 2. rewrite Hne.
    rewrite IH by (cbn [cur cnt]; trivial). cbn [out_parts cur].
    rewrite concat_emit_run. unfold run_token. rewrite Hcnt.
    change (1 <? 1) with false.
    cbn [map concat]. now rewrite !app_nil_r, <- !app_assoc.
Qed.

Lemma _encode_token_map c : _encode_token c = token_map isdigit c.
Proof.
  unfold _encode_token, token_map. change HASH with 35.
  destruct (c =? 35); [reflexivity|]. now destruct (isdigit c).
Qed.

(** C9, as stated, fails when digits are the decimal digits 0 to 9:
    superscript two (U+00B2) is none of them, yet [str.isdigit]
    accepts it, so the text of that one character is encoded with the
    escaped token, ['#'] and the character, and not with the character
    itself. *)
Lemma rle_encode_singletons_counterexample :
  [178] <> [] /\ no_repeat [178] = true /\
  rle_encode [178] = OK (py "##00#" ++ [178]) /\
  rle_encode [178] <> OK (py "##00" ++ concat (map (token_map is_0_to_9) [178])).
Proof. repeat split; [discriminate|discriminate]. Qed.

(** C9, amended: on a non-empty string in which no character equals
    its immediate successor, [rle_encode] returns the header followed
    by one token per character, in order and with no count after any
    of them: ["##"] for ['#'], ['#'] and the character for a character
    that [str.isdigit] accepts, the character itself otherwise. *)
Theorem rle_encode_singletons (text : str) :
  text <> [] ->
  no_repeat text = true ->
  rle_encode text = OK (py "##00" ++ concat (map (token_map isdigit) text)).
Proof.
  intros H Hnr. destruct text as [|c0 rest]; [contradiction|].
  cbn [rle_encode].
  rewrite (encode_loop_singletons rest (mk_enc [HEADER] c0 1) eq_refl Hnr).
  cbn [out_parts cur concat].
  rewrite (map_ext _ _ _encode_token_map). now rewrite !app_nil_r.
Qed.

Lemma rle_encode_singletons_witness :
  py "B12#A" <> [] /\ no_repeat (py "B12#A") = true /\
  rle_encode (py "B12#A") = OK (py "##00B#1#2##A").
Proof.
  split; [discriminate|]. split; [reflexivity|].
  exact (rle_encode_singletons (py "B12#A") ltac:(discriminate) eq_refl).
Defined.

(** ** Escapes *)

Lemma decode_loop_dangling : decode_loop [HASH] [] = Raise DanglingEscape.
Proof. reflexivity. Qed.

Lemma decode_loop_invalid c rest :
  c <> HASH -> isdigit c = false ->
  decode_loop (HASH :: c :: rest) [] = Raise InvalidEscape.
Proof.
  intros Hc Hd. rewrite decode_loop_cons.
  unfold decode_token, read_literal. rewrite N.eqb_refl.
  apply N.eqb_neq in Hc. now rewrite Hc, Hd.
Qed.

(** C5, as stated, fails: superscript two (U+00B2) is neither ['#']
    nor a decimal digit, yet [str.isdigit] accepts it, so ["#²"] is
    the escape of the literal ['²'] and no error is raised. *)
Lemma rle_decode_escape_counterexample :
  178 <> HASH /\ isdecimal 178 = false /\
  rle_decode (py "##00#" ++ [178]) = OK [178] /\
  rle_decode (py "##00#" ++ [178]) <> Raise InvalidEscape.
Proof. repeat split; [discriminate|reflexivity..|discriminate]. Qed.

(** C5, amended: when the stream is the header, tokens that decode,
    and then an escape character ['#'], [rle_decode] raises the
    dangling-escape error if the ['#'] ends the stream, and the
    invalid-escape error if the ['#'] is followed by a character that
    is neither ['#'] nor a digit in the sense of [str.isdigit] (the
    decimal digits and the other Unicode digit characters). *)
Theorem rle_decode_escape_errors (pre d : str) :
  rle_decode (py "##00" ++ pre) = OK d ->
  rle_decode (py "##00" ++ pre ++ [HASH]) = Raise DanglingEscape /\
  (forall c rest,
     c <> HASH -> isdigit c = false ->
     rle_decode (py "##00" ++ pre ++ HASH :: c :: rest) = Raise InvalidEscape).
Proof.
  change (py "##00") with HEADER. rewrite !rle_decode_strip_header. intros Hd.
  split; [|intros c rest Hc Hdig; rewrite rle_decode_strip_header].
  - rewrite (decode_loop_app pre d [HASH] Hd eq_refl).
    now rewrite decode_loop_dangling.
  - rewrite (decode_loop_app pre d (HASH :: c :: rest) Hd eq_refl).
    now rewrite decode_loop_invalid.
Qed.

Lemma rle_decode_escape_errors_witness :
  rle_decode (py "##00" ++ []) = OK [] /\
  rle_decode (py "##00#") = Raise DanglingEscape /\
  rle_decode (py "##00#x") = Raise InvalidEscape.
Proof.
  assert (H : rle_decode (py "##00" ++ []) = OK []) by reflexivity.
  split; [exact H|].
  destruct (rle_decode_escape_errors [] [] H) as [Hdangling Hinvalid].
  split; [exact Hdangling|].
  apply (Hinvalid 120 []); [discriminate|reflexivity].
Defined.

(** ** Counts *)

Lemma decode_token_before_zero c rest :
  match _encode_token c ++ 48 :: rest with
  | ch :: s' => decode_token ch s' = OK ([c], 48 :: rest)
  | [] => False
  end.
Proof.
  unfold _encode_token.
  destruct (c =? HASH) eqn:Ec; [|destruct (isdigit c) eqn:Ed].
  - apply N.eqb_eq in Ec. subst c. reflexivity.
  - cbn [app]. unfold decode_token, read_literal.
    now rewrite N.eqb_refl, Ec, Ed.
  - cbn [app]. unfold decode_token, read_literal. now rewrite Ec.
Qed.

Lemma decode_loop_errors s :
  forall out e,
    decode_loop s out = Raise e -> e = DanglingEscape \/ e = InvalidEscape.
Proof.
  remember (length s) as n eqn:Hn. revert s Hn.
  induction n as [n IH] using lt_wf_ind. intros s Hn out e.
  destruct s as [|ch s']; [simp decode_loop; discriminate|].
  rewrite decode_loop_cons.
  destruct (decode_token ch s') as [[piece rest]|e'] eqn:E.
  - apply decode_token_length in E.
    apply (IH (length rest)); [subst n; simpl; lia|reflexivity].
  - intros [= <-]. unfold decode_token, read_literal in E.
    destruct (ch =? HASH).
    + destruct s' as [|nxt s'']; [injection E as <-; now left|].
      destruct (nxt =? HASH); [|destruct (isdigit nxt)]; cbn [bind] in E;
        try (destruct (_read_count s''); discriminate).
      injection E as <-. now right.
    + cbn [bind] in E. destruct (_read_count s'); discriminate.
Qed.

(** C2: the failing inputs.  A 0 right after a literal token, alone
    or leading other digits, is not rejected: the token stands once and
    the 0 is decoded as a plain literal of its own, with the digits
    after it as its count.  So ["##00A01"] and ["##00A0"] decode to
    ["A0"], and ["##00A007"] to [A] and eight zeros (one, then seven),
    where the docstrings promise a [ValueError]. *)
Theorem rle_decode_leading_zero_accepted (c : char) :
  rle_decode (py "##00" ++ _encode_token c ++ py "01") = OK [c; 48] /\
  rle_decode (py "##00" ++ _encode_token c ++ py "0") = OK [c; 48] /\
  rle_decode (py "##00A01") = OK (py "A0") /\
  rle_decode (py "##00A0") = OK (py "A0") /\
  rle_decode (py "##00A007") = OK (py "A00000000").
Proof.
  change (py "##00") with HEADER. rewrite !rle_decode_strip_header.
  split; [|split; [|repeat split; reflexivity]].
  - pose proof (decode_token_before_zero c (py "1")) as H.
    change (py "01") with (48 :: py "1").
    destruct (_encode_token c ++ 48 :: py "1") as [|ch s']; [contradiction|].
    rewrite decode_loop_token, H. reflexivity.
  - pose proof (decode_token_before_zero c []) as H.
    change (py "0") with [48].
    destruct (_encode_token c ++ [48]) as [|ch s']; [contradiction|].
    rewrite decode_loop_token, H. reflexivity.
Qed.

(** * Further properties of the codec *)

(** What [rle_encode] returns decodes to its argument. *)
Lemma rle_encode_decodes text encoded :
  rle_encode text = OK encoded -> rle_decode encoded = OK text.
Proof.
  destruct text as [|c0 rest]; [discriminate|]. cbn [rle_encode].
  intros [= <-].
  destruct (encode_loop_decodes rest (mk_enc [HEADER] c0 1) [] [])
    as (b' & Hb' & Hdec); cbn [out_parts cur cnt] in *.
  - cbn [concat]. now rewrite !app_nil_r.
  - now simp decode_loop.
  - lia.
  - rewrite Hb', rle_decode_strip_header, Hdec. reflexivity.
Qed.

(** X1: [rle_encode] is injective: two texts with the same stream
    are the same text. *)
Theorem rle_encode_injective (text1 text2 encoded : str) :
  rle_encode text1 = OK encoded ->
  rle_encode text2 = OK encoded ->
  text1 = text2.
Proof.
  intros H1 H2. apply rle_encode_decodes in H1, H2. congruence.
Qed.

Lemma rle_encode_injective_witness :
  rle_encode (py "AAB") = OK (py "##00A2B") /\ py "AAB" = py "AAB".
Proof.
  assert (H : rle_encode (py "AAB") = OK (py "##00A2B")) by reflexivity.
  split; [exact H|]. exact (rle_encode_injective _ _ _ H H).
Defined.

(** ** One run *)

Lemma encode_loop_same_char c k :
  forall st,
    cur st = c ->
    fold_left encode_step (repeat c k) st =
    mk_enc (out_parts st) c (cnt st + N.of_nat k).
Proof.
  induction k as [|k IH]; intros st Hc.
  - cbn [repeat fold_left]. rewrite N.add_0_r. now destruct st; subst.
  - cbn [repeat fold_left]. unfold encode_step at 2.
    rewrite Hc, N.eqb_refl, IH by reflexivity. cbn [out_parts cnt].
    f_equal. lia.
Qed.

(** X2: a text that is one character [c] repeated [n] times, [n]
    positive, is encoded as the header, the token of [c] and, when [n]
    is above 1, the decimal digits of [n]. *)
Theorem rle_encode_one_run (c : char) (n : N) :
  0 < n ->
  rle_encode (str_mul c n) =
  OK (py "##00" ++ _encode_token c ++ (if 1 <? n then str_of_int n else [])).
Proof.
  intros Hn. unfold str_mul.
  destruct (N.to_nat n) as [|k] eqn:Ek; [lia|].
  cbn [repeat rle_encode].
  rewrite encode_loop_same_char by reflexivity. cbn [out_parts cnt].
  rewrite concat_emit_run. cbn [out_parts cur cnt concat].
  replace (1 + N.of_nat k) with n by lia.
  now rewrite app_nil_r.
Qed.

Lemma rle_encode_one_run_witness :
  0 < 12 /\ rle_encode (str_mul 53 12) = OK (py "##00#512").
Proof.
  split; [reflexivity|]. exact (rle_encode_one_run 53 12 eq_refl).
Defined.

Lemma rle_decode_token_count (c : char) (n : N) :
  0 < n ->
  rle_decode (py "##00" ++ _encode_token c ++ str_of_int n) = OK (str_mul c n).
Proof.
  intros Hn. change (py "##00") with HEADER. rewrite rle_decode_strip_header.
  assert (H : match _encode_token c ++ str_of_int n with
              | ch :: s' => decode_token ch s' = OK (str_mul c n, [])
              | [] => False
              end).
  { unfold _encode_token.
    destruct (c =? HASH) eqn:Ec; [|destruct (isdigit c) eqn:Ed].
    - apply N.eqb_eq in Ec. subst c.
      change (py "##") with [HASH; HASH]. cbn [app].
      unfold decode_token, read_literal. rewrite N.eqb_refl. cbn [bind].
      now rewrite (_read_count_str_of_int n Hn).
    - cbn [app]. unfold decode_token, read_literal.
      rewrite N.eqb_refl, Ec, Ed. cbn [bind].
      now rewrite (_read_count_str_of_int n Hn).
    - cbn [app]. unfold decode_token, read_literal. rewrite Ec. cbn [bind].
      now rewrite (_read_count_str_of_int n Hn). }
  destruct (_encode_token c ++ str_of_int n) as [|ch s']; [contradiction|].
  rewrite decode_loop_token, H. cbn [bind]. simp decode_loop. cbn [bind concat].
  now rewrite app_nil_r.
Qed.

(** X3: a count written after a token is accepted, the count 1
    included: for a text that is one character [c] repeated, the
    header, the token of [c] and the decimal digits of the length of
    the text decode to the text. *)
Theorem rle_decode_explicit_count (c : char) (text : str) :
  text <> [] ->
  Forall (eq c) text ->
  rle_decode
    (py "##00" ++ _encode_token c ++ str_of_int (N.of_nat (length text)))
  = OK text.
Proof.
  intros Hne Hall. rewrite rle_decode_token_count.
  - unfold str_mul. rewrite Nat2N.id. f_equal. symmetry.
    now apply Forall_eq_repeat.
  - destruct text; [contradiction|]. cbn [length]. lia.
Qed.

Lemma rle_decode_explicit_count_witness :
  py "555" <> [] /\ Forall (eq 53) (py "555") /\
  rle_decode (py "##00#53") = OK (py "555") /\
  rle_decode (py "##00A1") = OK (py "A").
Proof.
  assert (H3 : Forall (eq 53) (py "555")) by (repeat constructor).
  assert (H1 : Forall (eq 65) (py "A")) by (repeat constructor).
  split; [discriminate|]. split; [exact H3|]. split.
  - exact (rle_decode_explicit_count 53 (py "555") ltac:(discriminate) H3).
  - exact (rle_decode_explicit_count 65 (py "A") ltac:(discriminate) H1).
Defined.

(** ** Streams and texts put together *)

(** X4: when a stream decodes and more body text is put after it
    that does not start with a decimal digit, the whole decodes to the
    text of the stream followed by what the added body decodes to, and
    fails with the error of the added body when that fails. *)
Theorem rle_decode_app (body1 body2 text1 : str) :
  rle_decode (py "##00" ++ body1) = OK text1 ->
  no_decimal_head body2 = true ->
  rle_decode (py "##00" ++ body1 ++ body2) =
  bind (rle_decode (py "##00" ++ body2)) (fun text2 => OK (text1 ++ text2)).
Proof.
  change (py "##00") with HEADER. rewrite !rle_decode_strip_header.
  intros H1 H2. now apply decode_loop_app.
Qed.

Lemma rle_decode_app_witness :
  rle_decode (py "##00" ++ py "A3") = OK (py "AAA") /\
  no_decimal_head (py "#7#x") = true /\
  rle_decode (py "##00A3B2#1") = OK (py "AAABB1") /\
  rle_decode (py "##00A3#7#x") = Raise InvalidEscape.
Proof.
  assert (H : rle_decode (py "##00" ++ py "A3") = OK (py "AAA")) by reflexivity.
  split; [exact H|]. split; [reflexivity|]. split.
  - exact (rle_decode_app (py "A3") (py "B2#1") _ H eq_refl).
  - exact (rle_decode_app (py "A3") (py "#7#x") _ H eq_refl).
Defined.

Lemma encode_loop_out_parts rest :
  forall out c n,
    concat (emit_run (fold_left encode_step rest (mk_enc out c n))) =
    concat out ++
    concat (emit_run (fold_left encode_step rest (mk_enc [] c n))).
Proof.
  induction rest as [|ch rest IH]; intros out c n; cbn [fold_left].
  - now rewrite !concat_emit_run.
  - unfold encode_step at 2 4. cbn [out_parts cur cnt].
    destruct (ch =? c); [apply IH|].
    rewrite (IH (emit_run (mk_enc out c n))).
    rewrite (IH (emit_run (mk_enc [] c n))).
    rewrite !concat_emit_run. cbn [out_parts cur cnt concat app].
    now rewrite <- !app_assoc.
Qed.

Lemma encode_loop_app rest1 rest2 st :
  fold_left encode_step (rest1 ++ rest2) st =
  fold_left encode_step rest2 (fold_left encode_step rest1 st).
Proof. apply fold_left_app. Qed.

Lemma encode_loop_cur rest a st :
  cur (fold_left encode_step (rest ++ [a]) st) = a.
Proof.
  rewrite encode_loop_app. cbn [fold_left].
  generalize (fold_left encode_step rest st). intros st'.
  unfold encode_step. destruct (a =? cur st') eqn:E; [|reflexivity].
  apply N.eqb_eq in E. now cbn [cur].
Qed.

Lemma rle_encode_body c0 rest :
  rle_encode (c0 :: rest) =
  OK (HEADER ++
      concat (emit_run (fold_left encode_step rest (mk_enc [] c0 1)))).
Proof.
  cbn [rle_encode]. rewrite encode_loop_out_parts. cbn [concat].
  now rewrite app_nil_r.
Qed.

(** X5: when the last character of [text1] differs from the first of
    [text2], the stream of [text1 ++ text2] is the stream of [text1]
    followed by the body of the stream of [text2]. *)
Theorem rle_encode_app (text1 text2 body1 body2 : str) (a b : char) :
  a <> b ->
  rle_encode (text1 ++ [a]) = OK (py "##00" ++ body1) ->
  rle_encode (b :: text2) = OK (py "##00" ++ body2) ->
  rle_encode ((text1 ++ [a]) ++ b :: text2) = OK (py "##00" ++ body1 ++ body2).
Proof.
  change (py "##00") with HEADER. intros Hab H1 H2.
  rewrite rle_encode_body in H2. injection H2 as H2. subst body2.
  destruct text1 as [|c0 rest1]; cbn [app] in *.
  - rewrite rle_encode_body in H1. injection H1 as H1. subst body1.
    rewrite rle_encode_body. cbn [fold_left]. unfold encode_step at 2.
    cbn [cur]. apply N.eqb_neq in Hab. rewrite N.eqb_sym, Hab.
    now rewrite encode_loop_out_parts.
  - rewrite rle_encode_body in H1. injection H1 as H1. subst body1.
    rewrite rle_encode_body, encode_loop_app. cbn [fold_left].
    unfold encode_step at 2. rewrite encode_loop_cur.
    apply N.eqb_neq in Hab. rewrite N.eqb_sym, Hab.
    now rewrite encode_loop_out_parts.
Qed.

Lemma rle_encode_app_witness :
  65 <> 66 /\
  rle_encode (py "AA") = OK (py "##00A2") /\
  rle_encode (py "B5") = OK (py "##00B#5") /\
  rle_encode (py "AAB5") = OK (py "##00A2B#5").
Proof.
  assert (Hab : 65 <> 66) by discriminate.
  assert (H1 : rle_encode (py "A" ++ [65]) = OK (py "##00" ++ py "A2"))
    by reflexivity.
  assert (H2 : rle_encode (66 :: py "5") = OK (py "##00" ++ py "B#5"))
    by reflexivity.
  split; [exact Hab|]. split; [exact H1|]. split; [exact H2|].
  exact (rle_encode_app (py "A") (py "5") _ _ 65 66 Hab H1 H2).
Defined.

(** ** Every token stands for at least one character *)

Lemma int_ge_acc ds :
  forall acc,
    acc <= fold_left (fun a c => 10 * a + decimal_value c) ds acc.
Proof.
  induction ds as [|d ds IH]; intros acc; cbn [fold_left]; [lia|].
  specialize (IH (10 * acc + decimal_value d)). lia.
Qed.

Lemma _read_count_positive s : 0 < fst (_read_count s).
Proof.
  unfold _read_count, _COUNT_RE_match. destruct s as [|c s]; [reflexivity|].
  destruct ((49 <=? c) && (c <=? 57)) eqn:E; [|reflexivity].
  apply andb_prop in E as [E1 E2]. apply N.leb_le in E1, E2.
  destruct (span_decimal s) as [ds rest]. cbn [fst]. unfold int.
  cbn [fold_left].
  rewrite decimal_value_ascii by (unfold ascii_digit; lia).
  pose proof (int_ge_acc ds (10 * 0 + (c - 48))). lia.
Qed.

Lemma decode_token_nonempty ch s' piece rest :
  decode_token ch s' = OK (piece, rest) -> piece <> [].
Proof.
  unfold decode_token.
  destruct (read_literal ch s') as [[literal s'']|e]; [|discriminate].
  cbn [bind]. pose proof (_read_count_positive s'') as Hpos.
  destruct (_read_count s'') as [count r]. cbn [fst] in Hpos.
  intros [= <- <-]. unfold str_mul.
  destruct (N.to_nat count) eqn:E; [lia|discriminate].
Qed.

Lemma decode_loop_nonempty ch s' text :
  decode_loop (ch :: s') [] = OK text -> text <> [].
Proof.
  rewrite decode_loop_token.
  destruct (decode_token ch s') as [[piece rest]|e] eqn:E; [|discriminate].
  cbn [bind]. apply decode_token_nonempty in E.
  destruct (decode_loop rest []) as [r|e]; [|discriminate].
  cbn [bind]. intros [= <-]. destruct piece; [contradiction|discriminate].
Qed.

(** X6: only the bare header decodes to the empty string: a stream
    with any body either fails or decodes to a non-empty text. *)
Theorem rle_decode_empty_iff (encoded : str) :
  rle_decode encoded = OK [] <-> encoded = py "##00".
Proof.
  split; [|intros ->; reflexivity].
  unfold rle_decode. destruct (startswith encoded HEADER) eqn:E;
    [|discriminate].
  apply startswith_spec in E as [body ->].
  change (skipn 4 (HEADER ++ body)) with body.
  destruct body as [|ch s']; [reflexivity|].
  intros H. now apply decode_loop_nonempty in H.
Qed.

(** ** The length of a stream *)

Lemma chars_of_uint_length u :
  length (chars_of_uint u) = Decimal.nb_digits u.
Proof. induction u; cbn; congruence. Qed.

Lemma little_double_length d :
  (Decimal.nb_digits (Decimal.Little.double d) <= S (Decimal.nb_digits d) /\
   Decimal.nb_digits (Decimal.Little.succ_double d) <= S (Decimal.nb_digits d))%nat.
Proof. induction d; cbn; lia. Qed.

Lemma to_little_uint_length p :
  (Decimal.nb_digits (Pos.to_little_uint p) <= Pos.to_nat p)%nat.
Proof.
  induction p as [p IH|p IH|]; cbn [Pos.to_little_uint].
  - pose proof (proj2 (little_double_length (Pos.to_little_uint p))). lia.
  - pose proof (proj1 (little_double_length (Pos.to_little_uint p))).
    pose proof (Pos2Nat.is_pos p). lia.
  - cbn. lia.
Qed.

Lemma str_of_int_length n :
  0 < n -> (length (str_of_int n) <= N.to_nat n)%nat.
Proof.
  intros Hn. destruct n as [|p]; [lia|].
  unfold str_of_int. rewrite chars_of_uint_length.
  cbn [N.to_uint N.to_nat]. unfold Pos.to_uint.
  rewrite DecimalFacts.nb_digits_rev. apply to_little_uint_length.
Qed.

Lemma _encode_token_length c : (length (_encode_token c) <= 2)%nat.
Proof.
  unfold _encode_token. destruct (c =? HASH); [cbn; lia|].
  destruct (isdigit c); cbn; lia.
Qed.

Lemma run_token_length c n :
  0 < n -> (length (run_token c n) <= 2 * N.to_nat n)%nat.
Proof.
  intros Hn. unfold run_token. rewrite length_app.
  pose proof (_encode_token_length c).
  destruct (1 <? n) eqn:E.
  - apply N.ltb_lt in E. pose proof (str_of_int_length n Hn). lia.
  - cbn [length]. lia.
Qed.

Lemma encode_loop_length rest :
  forall st,
    0 < cnt st ->
    (length (concat (emit_run (fold_left encode_step rest st))) <=
     length (concat (out_parts st)) + 2 * (N.to_nat (cnt st) + length rest))%nat.
Proof.
  induction rest as [|ch rest IH]; intros st Hcnt; cbn [fold_left].
  - rewrite concat_emit_run, length_app.
    pose proof (run_token_length (cur st) (cnt st) Hcnt). cbn [length]. lia.
  - unfold encode_step at 2. destruct (ch =? cur st).
    + etransitivity; [apply IH; cbn [cnt]; lia|]. cbn [out_parts cnt length].
      lia.
    + etransitivity; [apply IH; cbn [cnt]; lia|]. cbn [out_parts cnt length].
      rewrite concat_emit_run, length_app.
      pose proof (run_token_length (cur st) (cnt st) Hcnt). lia.
Qed.

(** X7: a stream is at most four characters and twice its text long. *)
Theorem rle_encode_length (text encoded : str) :
  rle_encode text = OK encoded ->
  (length encoded <= 4 + 2 * length text)%nat.
Proof.
  destruct text as [|c0 rest]; [discriminate|]. cbn [rle_encode].
  intros [= <-].
  etransitivity; [apply encode_loop_length; cbn [cnt]; lia|].
  cbn [out_parts cnt concat length app].
  change (length (HEADER ++ [])) with 4%nat.
  change (N.to_nat 1) with 1%nat. lia.
Qed.

Lemma rle_encode_length_witness :
  rle_encode (py "#1#") = OK (py "##00###1##") /\
  (length (py "##00###1##") <= 4 + 2 * length (py "#1#"))%nat.
Proof.
  assert (H : rle_encode (py "#1#") = OK (py "##00###1##")) by reflexivity.
  split; [exact H|]. exact (rle_encode_length _ _ H).
Defined.

(** * The command line *)

Lemma rstrip_newline_fixed s :
  last s NEWLINE <> NEWLINE -> rstrip_newline s = s.
Proof.
  induction s as [|c s IH]; [reflexivity|].
  destruct s as [|c' s'].
  - cbn [last rstrip_newline]. intros Hc. apply N.eqb_neq in Hc.
    now rewrite Hc.
  - intros H. change (last (c :: c' :: s') NEWLINE)
      with (last (c' :: s') NEWLINE) in H.
    specialize (IH H). cbn [rstrip_newline] in *. now rewrite IH.
Qed.

Lemma rstrip_newline_last s :
  rstrip_newline s <> [] -> last (rstrip_newline s) NEWLINE <> NEWLINE.
Proof.
  induction s as [|c s IH]; [contradiction|]. cbn [rstrip_newline].
  destruct (rstrip_newline s) as [|c' r].
  - destruct (c =? NEWLINE) eqn:E; [contradiction|].
    intros _. cbn [last]. now apply N.eqb_neq.
  - intros _. change (last (c :: c' :: r) NEWLINE)
      with (last (c' :: r) NEWLINE). apply IH. discriminate.
Qed.

(** X8: [_prompt] rejects each line that is empty once its trailing
    newlines are removed, with one notice per line, and returns the
    first other line without its trailing newlines, leaving the lines
    after it unread. *)
Theorem _prompt_skips_blank (blanks : list str) (line : str) (rest : list str) :
  Forall blank blanks ->
  ~ blank line ->
  _prompt (blanks ++ line :: rest) =
  (notices blanks ++ [Prompt PROMPT_TEXT],
   Returns (rstrip_newline line, rest)).
Proof.
  unfold blank. intros Hblanks Hline.
  induction Hblanks as [|b blanks Hb _ IH]; cbn [app _prompt].
  - destruct (rstrip_newline line); [contradiction|reflexivity].
  - rewrite Hb, IH. reflexivity.
Qed.

Lemma _prompt_skips_blank_witness :
  Forall blank [[]; [NEWLINE; NEWLINE]] /\ ~ blank (py "AAB" ++ [NEWLINE]) /\
  _prompt [[]; [NEWLINE; NEWLINE]; py "AAB" ++ [NEWLINE]; py "x"] =
  ([Prompt PROMPT_TEXT; Print EMPTY_NOTICE;
    Prompt PROMPT_TEXT; Print EMPTY_NOTICE; Prompt PROMPT_TEXT],
   Returns (py "AAB", [py "x"])).
Proof.
  assert (H1 : Forall blank [[]; [NEWLINE; NEWLINE]])
    by (repeat constructor).
  assert (H2 : ~ blank (py "AAB" ++ [NEWLINE])) by discriminate.
  split; [exact H1|]. split; [exact H2|].
  exact (_prompt_skips_blank _ _ [py "x"] H1 H2).
Defined.

(** X9: the text that [_prompt] returns is never empty and never
    ends with a newline. *)
Theorem _prompt_returns_nonempty
  (stdin : list str) (events : list event) (text : str) (rest : list str) :
  _prompt stdin = (events, Returns (text, rest)) ->
  text <> [] /\ last text NEWLINE <> NEWLINE.
Proof.
  revert events. induction stdin as [|line stdin IH]; intros events;
    cbn [_prompt]; [discriminate|].
  destruct (rstrip_newline line) as [|c r] eqn:E.
  - destruct (_prompt stdin) as [ev res]. intros [= _ ->]. now apply (IH ev).
  - intros [= _ <- _]. split; [discriminate|].
    rewrite <- E. apply rstrip_newline_last. rewrite E. discriminate.
Qed.

Lemma _prompt_returns_nonempty_witness :
  _prompt [[]; py "AAB"] =
  ([Prompt PROMPT_TEXT; Print EMPTY_NOTICE; Prompt PROMPT_TEXT],
   Returns (py "AAB", [])) /\
  py "AAB" <> [] /\ last (py "AAB") NEWLINE <> NEWLINE.
Proof.
  assert (H : _prompt [[]; py "AAB"] =
              ([Prompt PROMPT_TEXT; Print EMPTY_NOTICE; Prompt PROMPT_TEXT],
               Returns (py "AAB", []))) by reflexivity.
  split; [exact H|]. exact (_prompt_returns_nonempty _ _ _ _ H).
Defined.

(** X10: when every line of the input is rejected, [_prompt] writes
    one notice per line, prompts once more and ends in [EOFError];
    [main] then ends in [EOFError] too and prints nothing else. *)
Theorem _prompt_eof (stdin : list str) :
  Forall blank stdin ->
  _prompt stdin = (notices stdin ++ [Prompt PROMPT_TEXT], EOFError) /\
  main stdin = (notices stdin ++ [Prompt PROMPT_TEXT], EOFError).
Proof.
  unfold blank. intros H.
  assert (Hp : _prompt stdin = (notices stdin ++ [Prompt PROMPT_TEXT], EOFError)).
  { induction H as [|b stdin Hb _ IH]; cbn [_prompt]; [reflexivity|].
    now rewrite Hb, IH. }
  split; [exact Hp|]. unfold main. now rewrite Hp.
Qed.

Lemma _prompt_eof_witness :
  Forall blank [[]] /\
  main [[]] =
  ([Prompt PROMPT_TEXT; Print EMPTY_NOTICE; Prompt PROMPT_TEXT], EOFError).
Proof.
  assert (H : Forall blank [[]]) by (repeat constructor).
  split; [exact H|]. exact (proj2 (_prompt_eof _ H)).
Defined.

(** ** What [main] prints *)

Lemma startswith_HEADER_nonempty s : startswith s HEADER = true -> s <> [].
Proof. destruct s; [discriminate|discriminate]. Qed.

(** X11: for a non-empty text that does not start with the header
    [main] prints ["Encoded => "] and the stream of the text, never an
    error; and whatever the non-empty text, the line [main] prints is
    neither the empty-input error nor the missing-header error. *)
Theorem main_unreachable_errors (user_text : str) :
  user_text <> [] ->
  (startswith user_text HEADER = false ->
   exists encoded,
     rle_encode user_text = OK encoded /\
     main_line user_text = py "Encoded => " ++ encoded) /\
  main_line user_text <> py "Error: " ++ exn_message EmptyInput /\
  main_line user_text <> py "Error: " ++ exn_message MissingHeader.
Proof.
  intros Hne. unfold main_line.
  destruct (startswith user_text HEADER) eqn:E.
  - split; [discriminate|].
    destruct (rle_decode user_text) as [decoded|ex] eqn:Ed.
    + split; discriminate.
    + unfold rle_decode in Ed. rewrite E in Ed.
      destruct (decode_loop_errors _ _ _ Ed) as [-> | ->];
        split; intros H; vm_compute in H; discriminate.
  - destruct user_text as [|c0 rest]; [contradiction|]. split.
    + intros _. eexists. split; reflexivity.
    + cbn [rle_encode]. split; discriminate.
Qed.

Lemma main_unreachable_errors_witness :
  py "A4" <> [] /\ startswith (py "A4") HEADER = false /\
  main_line (py "A4") = py "Encoded => ##00A#4".
Proof.
  assert (Hne : py "A4" <> []) by discriminate.
  split; [exact Hne|]. split; [reflexivity|].
  destruct (main_unreachable_errors (py "A4") Hne) as [H _].
  destruct (H eq_refl) as [e [He ->]]. injection He as <-. reflexivity.
Defined.

Lemma last_app_nonempty (x y : list char) d :
  y <> [] -> last (x ++ y) d = last y d.
Proof.
  intros Hy. destruct y as [|c y]; [contradiction|].
  induction x as [|a x IH]; [reflexivity|].
  cbn [app]. destruct (x ++ c :: y) eqn:E; [now destruct x|].
  cbn [last]. exact IH.
Qed.

Lemma last_ascii_digit ds :
  Forall ascii_digit ds -> ds <> [] -> last ds NEWLINE <> NEWLINE.
Proof.
  induction 1 as [|c ds Hc Hds IH]; [contradiction|]. intros _.
  destruct ds as [|c' ds']; [cbn; unfold ascii_digit, NEWLINE in *; lia|].
  change (last (c :: c' :: ds') NEWLINE) with (last (c' :: ds') NEWLINE).
  apply IH. discriminate.
Qed.

Lemma run_token_last c n :
  c <> NEWLINE -> last (run_token c n) NEWLINE <> NEWLINE.
Proof.
  intros Hc. unfold run_token. destruct (1 <? n) eqn:E.
  - apply N.ltb_lt in E.
    destruct (str_of_int_pos n) as (d & ds & Hs & Hd & Hds); [lia|].
    rewrite last_app_nonempty by (rewrite Hs; discriminate).
    apply last_ascii_digit; [|rewrite Hs; discriminate].
    rewrite Hs. constructor; [unfold ascii_digit; lia|exact Hds].
  - rewrite app_nil_r. unfold _encode_token.
    destruct (c =? HASH); [discriminate|]. now destruct (isdigit c).
Qed.

Lemma rle_encode_last text encoded :
  last text NEWLINE <> NEWLINE ->
  rle_encode text = OK encoded ->
  last encoded NEWLINE <> NEWLINE.
Proof.
  intros Hlast. destruct text as [|c0 rest]; [discriminate|].
  cbn [rle_encode]. intros [= <-]. rewrite concat_emit_run.
  assert (Hcur : cur (fold_left encode_step rest (mk_enc [HEADER] c0 1))
                 = last (c0 :: rest) NEWLINE).
  { destruct (exists_last (l := c0 :: rest)) as (l' & a & Hl);
      [discriminate|].
    rewrite Hl, last_last. destruct l' as [|c0' l''].
    - injection Hl as -> ->. reflexivity.
    - injection Hl as -> ->. apply encode_loop_cur. }
  assert (Hrun : forall n, run_token (last (c0 :: rest) NEWLINE) n <> []).
  { intros n Hn. pose proof (run_token_last _ n Hlast) as H.
    rewrite Hn in H. now apply H. }
  rewrite Hcur, last_app_nonempty by apply Hrun.
  now apply run_token_last.
Qed.

Lemma main_single text :
  last text NEWLINE <> NEWLINE ->
  main [text] = ([Prompt PROMPT_TEXT; Print (main_line text)], Returns tt).
Proof.
  intros H. unfold main. cbn [_prompt].
  rewrite (rstrip_newline_fixed text H).
  destruct text as [|c r]; [now cbn in H|reflexivity].
Qed.

(** X12: when a text that is not empty, does not end with a newline
    and does not start with the header is entered, [main] prints its
    stream after ["Encoded => "]; when that stream is entered, [main]
    prints the text again after ["Decoded => "]. *)
Theorem main_roundtrip (text : str) :
  last text NEWLINE <> NEWLINE ->
  startswith text HEADER = false ->
  exists encoded,
    main [text] =
      ([Prompt PROMPT_TEXT; Print (py "Encoded => " ++ encoded)], Returns tt) /\
    main [encoded] =
      ([Prompt PROMPT_TEXT; Print (py "Decoded => " ++ text)], Returns tt).
Proof.
  intros Hlast Hstart.
  destruct (rle_encode text) as [encoded|ex] eqn:He.
  - exists encoded. split.
    + rewrite (main_single text Hlast). unfold main_line.
      now rewrite Hstart, He.
    + rewrite (main_single encoded (rle_encode_last _ _ Hlast He)).
      unfold main_line. rewrite (rle_encode_decodes _ _ He).
      destruct text as [|c0 rest]; [discriminate|].
      rewrite rle_encode_body in He. injection He as <-.
      reflexivity.
  - destruct text as [|c0 rest]; [now cbn in Hlast|discriminate].
Qed.

Lemma main_roundtrip_witness :
  last (py "AA#5 5") NEWLINE <> NEWLINE /\
  startswith (py "AA#5 5") HEADER = false /\
  exists encoded,
    main [py "AA#5 5"] =
      ([Prompt PROMPT_TEXT; Print (py "Encoded => " ++ encoded)], Returns tt) /\
    main [encoded] =
      ([Prompt PROMPT_TEXT; Print (py "Decoded => " ++ py "AA#5 5")], Returns tt).
Proof.
  assert (H1 : last (py "AA#5 5") NEWLINE <> NEWLINE) by discriminate.
  split; [exact H1|]. split; [reflexivity|].
  exact (main_roundtrip (py "AA#5 5") H1 eq_refl).
Defined.

(** * Plain text and bodies without escapes *)

Lemma _encode_token_plain c : plain c -> _encode_token c = [c].
Proof.
  intros [Hc Hd]. unfold _encode_token. apply N.eqb_neq in Hc.
  now rewrite Hc, Hd.
Qed.

Lemma concat_tokens_plain text :
  Forall plain text -> concat (map _encode_token text) = text.
Proof.
  induction 1 as [|c text Hc _ IH]; [reflexivity|].
  cbn [map concat]. now rewrite (_encode_token_plain c Hc), IH.
Qed.

(** X13: a non-empty text without ['#'], without digits and without
    a character equal to its successor is encoded as the header
    followed by the text itself. *)
Theorem rle_encode_plain (text : str) :
  text <> [] ->
  Forall plain text ->
  no_repeat text = true ->
  rle_encode text = OK (py "##00" ++ text).
Proof.
  intros Hne Hplain Hnr. destruct text as [|c0 rest]; [contradiction|].
  cbn [rle_encode].
  rewrite (encode_loop_singletons rest (mk_enc [HEADER] c0 1) eq_refl Hnr).
  cbn [out_parts cur concat]. rewrite (concat_tokens_plain _ Hplain).
  now rewrite !app_nil_r.
Qed.

Lemma rle_encode_plain_witness :
  py "abc a" <> [] /\ Forall plain (py "abc a") /\
  no_repeat (py "abc a") = true /\
  rle_encode (py "abc a") = OK (py "##00abc a").
Proof.
  assert (H : Forall plain (py "abc a"))
    by (repeat constructor; discriminate).
  split; [discriminate|]. split; [exact H|]. split; [reflexivity|].
  apply rle_encode_plain; [discriminate|exact H|reflexivity].
Defined.

Lemma _read_count_plain s :
  Forall plain s -> _read_count s = (1, s).
Proof.
  intros H. unfold _read_count, _COUNT_RE_match.
  destruct s as [|c s]; [reflexivity|]. inversion H as [|? ? [_ Hd] _]; subst.
  destruct ((49 <=? c) && (c <=? 57)) eqn:E; [|reflexivity].
  apply andb_prop in E as [E1 E2]. apply N.leb_le in E1, E2.
  rewrite isdigit_ascii in Hd; [discriminate|unfold ascii_digit; lia].
Qed.

Lemma decode_loop_plain body :
  Forall plain body -> decode_loop body [] = OK body.
Proof.
  induction 1 as [|c body Hc Hbody IH]; [now simp decode_loop|].
  rewrite decode_loop_token. unfold decode_token, read_literal.
  destruct Hc as [Hc _]. apply N.eqb_neq in Hc. rewrite Hc. cbn [bind].
  rewrite (_read_count_plain body Hbody). cbn [bind]. rewrite IH. reflexivity.
Qed.

(** X14: a stream whose body has no ['#'] and no digit decodes to
    its body. *)
Theorem rle_decode_plain (body : str) :
  Forall plain body ->
  rle_decode (py "##00" ++ body) = OK body.
Proof.
  intros H. change (py "##00") with HEADER.
  rewrite rle_decode_strip_header. now apply decode_loop_plain.
Qed.

Lemma rle_decode_plain_witness :
  Forall plain (py "aab c") /\ rle_decode (py "##00aab c") = OK (py "aab c").
Proof.
  assert (H : Forall plain (py "aab c"))
    by (repeat constructor; discriminate).
  split; [exact H|]. exact (rle_decode_plain _ H).
Defined.

(** ** Digits that are not counts *)




